(** * The application wizard: container state and step base class

    A shallow embedding of
    [web/src/admin/applications/wizard/ak-application-wizard-main.ts]
    (the [AkApplicationWizardMain] container) and of the [WizardStep] base
    class that follows it in the same source file.

    JavaScript objects used as maps are [gmap string JSValue]; objects that
    are reached through a reference ([this.wizard]) live in an explicit store
    so that "a new object is produced" can be told from "the old object was
    changed"; a [Set<string>] is the list of its members in insertion order;
    code that can [throw] returns a [result]. *)

From stdpp Require Import gmap strings list fin_maps.

Set Warnings "-register-all,-clear-no-such-hyp".
#[local] Open Scope string_scope.
#[local] Open Scope list_scope.

(** ** JavaScript values *)

Inductive JSValue :=
| VUndefined
| VNull
| VBool (b : bool)
| VNum (n : Z)
| VStr (s : string)
| VArr (l : list JSValue)
| VObj (fields : gmap string JSValue).

(** An object literal / a plain object: own enumerable properties by key. *)
Abbreviation JSObject := (gmap string JSValue).

(** [{...a, ...b}]: every own property of [a], then every own property of
    [b] written over it.  The union of [gmap] is left-biased, so the
    object spread last wins by standing on the left. *)
Definition spread (a b : JSObject) : JSObject := b ∪ a.

(** [o[k1][k2]], where [o[k1]] is an object; [undefined] ([None]) otherwise. *)
Definition nestedProperty (o : JSObject) (k1 k2 : string) : option JSValue :=
  match o !! k1 with
  | Some (VObj fields) => fields !! k2
  | _ => None
  end.

(** ** [Set<string>]

    A JavaScript [Set] iterates in insertion order and holds no value twice:
    the list of members, first insertion first. *)

Fixpoint Set_add_all (s xs : list string) : list string :=
  match xs with
  | [] => s
  | x :: xs' => Set_add_all (if bool_decide (x ∈ s) then s else s ++ [x]) xs'
  end.

(** [new Set(iterable)] *)
Definition Set_new (xs : list string) : list string := Set_add_all [] xs.

(** [Array.from(s.keys())] *)
Definition Set_keys (s : list string) : list string := s.

(** The members of a [Set], forgetting the insertion order. *)
Definition members (s : list string) : gset string := list_to_set s.

(** [Array.prototype.includes] on an array of strings. *)
Definition includes (l : list string) (k : string) : bool := bool_decide (k ∈ l).

(** ** [asArr]

    [const asArr = <T>(v: T | T[]): T[] => (Array.isArray(v) ? v : [v]);] *)

Inductive OneOrMany (T : Type) :=
| One (v : T)
| Many (vs : list T).
Arguments One {T} v.
Arguments Many {T} vs.

Definition asArr {T} (v : OneOrMany T) : list T :=
  match v with
  | Many vs => vs
  | One v => [v]
  end.

(** ** The container, [AkApplicationWizardMain] *)

Module AkApplicationWizardMain.

(** [freshWizardState()] *)
Definition freshWizardState : JSObject :=
  {[ "providerModel" := VStr "";
     "currentBinding" := VNum (-1);
     "app" := VObj ∅;
     "provider" := VObj ∅;
     "errors" := VObj ∅;
     "bindings" := VArr [] ]}.

(** The status instruction of an update event: [enable] and [disable] are
    each absent, one step identifier, or an array of them. *)
Record Status := {
  enable : option (OneOrMany string);
  disable : option (OneOrMany string);
}.

(** [ev.content] *)
Record Content := {
  update : option JSObject;
  status : option Status;
}.

Record WizardUpdateEvent := {
  content : Content;
  propagationStopped : bool;
}.

(** [ev.stopPropagation()] *)
Definition stopPropagation (ev : WizardUpdateEvent) : WizardUpdateEvent :=
  {| content := content ev; propagationStopped := true |}.

(** References to objects of the store. *)
Abbreviation loc := nat.

(** The component: the two [@state()] fields, and the store of the objects
    that [wizard] has pointed to.  The child steps are handed the reference
    [this.wizard] at each render, so an earlier reference may still be held
    elsewhere. *)
Record t := {
  objects : gmap loc JSObject;
  wizard : loc;
  enabled : list string;
}.

(** The object [this.wizard] points to. *)
Definition wizardObject (this : t) : JSObject := objects this !!! wizard this.

(** A reference that does not dangle. *)
Definition allocated (this : t) : Prop := is_Some (objects this !! wizard this).

(** Field initialisers: [wizard = freshWizardState()],
    [enabled = new Set(["application"])]. *)
Definition init : t :=
  {| objects := {[ 0%nat := freshWizardState ]};
     wizard := 0%nat;
     enabled := Set_new ["application"] |}.

(** The [update] branch: the object literal [{...this.wizard, ...update}]
    is a new object, and [this.wizard] is pointed at it. *)
Definition mergeUpdate (u : JSObject) (this : t) : t :=
  let l := fresh (dom (objects this)) in
  {| objects := <[ l := spread (wizardObject this) u ]> (objects this);
     wizard := l;
     enabled := enabled this |}.

(** The [status] branch. *)
Definition applyStatus (st : Status) (this : t) : t :=
  let enable := asArr (default (Many []) (enable st)) in
  let disable := asArr (default (Many []) (disable st)) in
  {| objects := objects this;
     wizard := wizard this;
     enabled :=
       Set_new (filter (λ k, negb (includes disable k)) (Set_keys (enabled this))
                ++ enable) |}.

(** [handleUpdate(ev)]: the event after the call, and the component after
    the call. *)
Definition handleUpdate (ev : WizardUpdateEvent) (this : t) : WizardUpdateEvent * t :=
  let ev' := stopPropagation ev in
  let this1 :=
    match update (content ev) with
    | Some u => mergeUpdate u this
    | None => this
    end in
  let this2 :=
    match status (content ev) with
    | Some st => applyStatus st this1
    | None => this1
    end in
  (ev', this2).

(** What [render] hands down: the [enabled] property of [ak-wizard-steps],
    and to the child in each slot the reference [this.wizard]. *)
Definition render (this : t) : list string * list (string * loc) :=
  (Set_keys (enabled this),
   [ ("application", wizard this);
     ("provider-choice", wizard this);
     ("provider", wizard this);
     ("submit", wizard this) ]).

(** A sequence of events, handled one after the other. *)
Definition handleUpdates (evs : list WizardUpdateEvent) (this : t) : t :=
  foldl (λ this ev, (handleUpdate ev this).2) this evs.

(** The partial updates carried by a sequence of events, in order. *)
Definition updatesOf (evs : list WizardUpdateEvent) : list JSObject :=
  omap (λ ev, update (content ev)) evs.

(** The value a key has after a sequence of partial updates: that of the
    last update that has the key, else the one it started with. *)
Definition lastWrite (k : string) (start : option JSValue) (us : list JSObject)
  : option JSValue :=
  foldl (λ acc u, match u !! k with Some v => Some v | None => acc end) start us.

(** The status instructions carried by a sequence of events, in order. *)
Definition statusesOf (evs : list WizardUpdateEvent) : list Status :=
  omap (λ ev, status (content ev)) evs.

(** Whether a step is enabled after a sequence of status instructions: the
    last instruction that names it decides, [enable] before [disable]
    within one instruction; a step that none names stays as it was. *)
Definition lastInstruction (k : string) (start : bool) (sts : list Status) : bool :=
  foldl (λ acc st,
           if includes (asArr (default (Many []) (enable st))) k then true
           else if includes (asArr (default (Many []) (disable st))) k then false
           else acc)
        start sts.

(** The state and the event of the specification's example: the state
    [{app: {name: "x"}}], and an update [{app: {slug: "y"}}]. *)
Definition nested_before : t :=
  {| objects := {[ 0%nat := {[ "app" := VObj {[ "name" := VStr "x" ]} ]} ]};
     wizard := 0%nat;
     enabled := ["application"] |}.

Definition nested_event : WizardUpdateEvent :=
  {| content := {| update := Some {[ "app" := VObj {[ "slug" := VStr "y" ]} ]};
                   status := None |};
     propagationStopped := false |}.

End AkApplicationWizardMain.

(** ** Deep merge, as the specification names it

    The recursive merge of two values: two objects are merged key by key
    and recursively, anything else is replaced by the later value.  It is
    not in the source; it is what "the deep-merge of all partial updates"
    denotes, to be compared with what [handleUpdate] computes. *)

Fixpoint deep_merge_value (a b : JSValue) {struct a} : JSValue :=
  match a, b with
  | VObj fa, VObj fb =>
      VObj (union_with (λ x y, Some (deep_merge_value x y)) fa fb)
  | _, _ => b
  end.

Definition deep_merge (a b : JSObject) : JSObject :=
  union_with (λ x y, Some (deep_merge_value x y)) a b.


(** ** Code that can [throw] *)

Inductive result (A : Type) :=
| Ok (a : A)
| Throw (message : string).
Arguments Ok {A} a.
Arguments Throw {A} message.

(** [result] as a monad, for stdpp's [x ← r; k]. *)
#[export] Instance result_ret : MRet result := λ A a, Ok a.

#[export] Instance result_bind : MBind result := λ A B k r,
  match r with
  | Ok a => k a
  | Throw m => Throw m
  end.

(** Running [f] over an array from left to right; the first [throw] ends it. *)
Fixpoint traverse {A B} (f : A → result B) (l : list A) : result (list B) :=
  match l with
  | [] => Ok []
  | a :: l' => b ← f a; bs ← traverse f l'; Ok (b :: bs)
  end.

Definition throws {A} (r : result A) : Prop := ∃ m, r = Throw m.

(** ** The types of [./types] that the step uses

    [./types] is not part of the source at hand; the shapes below are the
    fields the step reads. *)

(** [ButtonKind], the keys of [BUTTON_KIND_TO_CLASS]. *)
Inductive ButtonKind := next | back | close | cancel.

(** [WizardButton]: a kind, and optionally a label, a [disabled] flag and a
    [destination]. *)
Module WizardButton.
Record t := {
  kind : ButtonKind;
  label : option string;
  disabled : option bool;
  destination : option string;
}.
End WizardButton.

(** [WizardStepLabel] *)
Module WizardStepLabel.
Record t := {
  id : string;
  label : string;
  enabled : bool;
  active : bool;
}.
End WizardStepLabel.

(** [WizardStepState]; [currentStep] is [undefined] ([None]) at first. *)
Module WizardStepState.
Record t := {
  currentStep : option string;
  stepLabels : list WizardStepLabel.t;
}.
End WizardStepState.

(** ** What a step dispatches and what it renders *)

(** The events of [./events.js] a step dispatches.  A navigation event
    carries the value of the expression it was built from; for
    [button.destination] that is the property if present. *)
Inductive DispatchedEvent :=
| WizardNavigationEvent (destination : option string)
| WizardCloseEvent.

(** The [@click] listeners of the templates. *)
Inductive Listener :=
| ListenCloseEvent
    (* @click=${this.onWizardCloseEvent} *)
| ListenNavigationEvent (button : WizardButton.t)
    (* @click=${(ev: Event) => this.onWizardNavigationEvent(ev, button)} *)
| ListenSidebarNav.
    (* @click=${this.onSidebarNav} *)

(** A rendered [<button>]: the argument of [classMap], its content
    attributes (a boolean attribute that is present has the value [""]),
    its click listener and its text. *)
Module HTMLButtonElement.
Record t := {
  classes : list (string * bool);
  attributes : gmap string string;
  listener : option Listener;
  text : string;
}.

(** The [value] IDL attribute reflects the [value] content attribute, and is
    the empty string without one. *)
Definition value (el : t) : string := default "" (attributes el !! "value").

(** The [disabled] IDL attribute: is the content attribute present. *)
Definition isDisabled (el : t) : bool := bool_decide (is_Some (attributes el !! "disabled")).
End HTMLButtonElement.

(** A boolean attribute binding, [?name=${b}]. *)
Definition boolAttribute (a : string) (b : bool) : gmap string string :=
  if b then {[ a := "" ]} else ∅.

(** The templates of the step, by their shape.  A [map(items, f)] of lit
    is a generator: building the template calls [f] on nothing, lit calls
    it on each item when it commits the template. *)
Inductive Html :=
| nothing
    (* lit's [nothing] *)
| Content (s : string)
    (* what a client class puts into the main body *)
| Button (b : HTMLButtonElement.t)
| FooterCancel (b : HTMLButtonElement.t)
    (* <div class="pf-c-wizard__footer-cancel"> button </div> *)
| NavItem (b : HTMLButtonElement.t)
    (* <li class="pf-c-wizard__nav-item"> button </li> *)
| MapRenderSidebarStep (steps : list WizardStepLabel.t)
    (* map(this.wizardStepState.stepLabels, this.renderSidebarStep), not yet run *)
| MapRenderButton (buttons : list WizardButton.t)
    (* map(this.buttons, this.renderButton), not yet run *)
| Items (items : list Html)
    (* the items of a map that has been run *)
| ModalBox (headerCancelIcon : Html) (title : string) (description : option string)
    (navList : Html) (mainBody : Html) (footer : Html).

(** A DOM event as the listeners see it. *)
Module Event.
Record t := {
  target : HTMLButtonElement.t;
  propagationStopped : bool;
}.
Definition stopPropagation (ev : t) : t :=
  {| target := target ev; propagationStopped := true |}.
End Event.

(** ** The step base class, [WizardStep] *)

Module WizardStep.

(** [isNavigable]: with [destination] typed as an optional string,
    ["destination" in b && typeof b.destination === "string"] is
    "the property is there", and then [b.destination.length > 0]. *)
Definition isNavigable (b : WizardButton.t) : bool :=
  match WizardButton.destination b with
  | Some d => bool_decide (0 < String.length d)
  | None => false
  end.

Definition BUTTON_KIND_TO_CLASS (k : ButtonKind) : string :=
  match k with
  | next => "pf-m-primary"
  | back => "pf-m-secondary"
  | close => "pf-m-link"
  | cancel => "pf-m-link"
  end.

(** The fields of the element, and [attributes] for the content attributes
    of the host element ([getAttribute]). *)
Record t := {
  enabled : bool;
  name : option string;
  wizardStepState : WizardStepState.t;
  wizardTitle : string;
  wizardDescription : option string;
  canCancel : bool;
  id : string;
  label : string;
  hidden : bool;
  attributes : gmap string string;
}.

(** [this.getAttribute(a)]: the value, or [null] ([None]). *)
Definition getAttribute (this : t) (a : string) : option string := attributes this !! a.

(** [!v] for [v : string | undefined] or [string | null]: the empty string
    is falsy as well. *)
Definition falsy (v : option string) : bool :=
  match v with
  | Some s => bool_decide (s = "")
  | None => true
  end.

(** [a === b] for [a : string | undefined] and [b : string | null]:
    [undefined === null] is false. *)
Definition strictEquals (a b : option string) : bool :=
  match a, b with
  | Some x, Some y => bool_decide (x = y)
  | _, _ => false
  end.

(** The operations client classes override. *)
Class Methods := {
  buttons : t → list WizardButton.t;
  renderMain : t → result Html;
  renderButtons : t → result Html;
}.

(** The base class itself. *)
Definition Base : Methods :=
  {| buttons := λ _, [];
     renderMain := λ _, Throw "This must be overridden in client classes";
     renderButtons := λ _, Throw "This must be overridden in client classes" |}.

Section Localized.

(** [msg] of [@lit/localize]. *)
Context (msg : string → string).

Definition BUTTON_KIND_TO_LABEL (k : ButtonKind) : string :=
  match k with
  | next => msg "Next"
  | back => msg "Back"
  | cancel => msg "Cancel"
  | close => msg "Close"
  end.

Definition handleNavigationEvent (button : WizardButton.t) : result (list DispatchedEvent) :=
  if negb (isNavigable button) then
    Throw "Non-navigable button sent to handleNavigationEvent"
  else
    Ok [WizardNavigationEvent (WizardButton.destination button)].

(** [super.connectedCallback()], as far as the fields of the step go.  The
    classes above [WizardStep] are outside this file; what they do to these
    fields on connection is the work of the consumer that [@consume] attaches
    to [wizardStepState]: it asks for the context, and a provider above the
    element, if there is one, answers with its value, which is assigned to
    the field.  [provided] is that value. *)
Definition superConnectedCallback (provided : option WizardStepState.t) (this : t) : t :=
  match provided with
  | Some state =>
      {| enabled := enabled this; name := name this;
         wizardStepState := state; wizardTitle := wizardTitle this;
         wizardDescription := wizardDescription this; canCancel := canCancel this;
         id := id this; label := label this; hidden := hidden this;
         attributes := attributes this |}
  | None => this
  end.

Definition connectedCallback (provided : option WizardStepState.t) (this : t) : result t :=
  let this := superConnectedCallback provided this in
  if falsy (name this) then
    let name := getAttribute this "slot" in
    if falsy name then
      Throw "Steps must have a unique slot attribute."
    else
      Ok {| enabled := enabled this; name := name;
            wizardStepState := wizardStepState this; wizardTitle := wizardTitle this;
            wizardDescription := wizardDescription this; canCancel := canCancel this;
            id := id this; label := label this; hidden := hidden this;
            attributes := attributes this |}
  else Ok this.

Definition onWizardNavigationEvent (ev : Event.t) (button : WizardButton.t)
  : Event.t * result (list DispatchedEvent) :=
  (Event.stopPropagation ev, handleNavigationEvent button).

Definition onWizardCloseEvent (ev : Event.t) : Event.t * result (list DispatchedEvent) :=
  (Event.stopPropagation ev, Ok [WizardCloseEvent]).

Definition onSidebarNav (ev : Event.t) : Event.t * result (list DispatchedEvent) :=
  let ev' := Event.stopPropagation ev in
  let target := HTMLButtonElement.value (Event.target ev) in
  (ev', Ok [WizardNavigationEvent (Some target)]).

Definition getButtonLabel (button : WizardButton.t) : string :=
  default (BUTTON_KIND_TO_LABEL (WizardButton.kind button)) (WizardButton.label button).

Definition getButtonClasses (button : WizardButton.t) : list (string * bool) :=
  [ ("pf-c-button", true);
    (BUTTON_KIND_TO_CLASS (WizardButton.kind button), true) ].

Definition renderCloseButton (button : WizardButton.t) : Html :=
  FooterCancel
    {| HTMLButtonElement.classes := getButtonClasses button;
       HTMLButtonElement.attributes := {[ "type" := "button" ]};
       HTMLButtonElement.listener := Some ListenCloseEvent;
       HTMLButtonElement.text := getButtonLabel button |}.

Definition renderDisabledButton (button : WizardButton.t) : Html :=
  Button
    {| HTMLButtonElement.classes := getButtonClasses button;
       HTMLButtonElement.attributes := {[ "type" := "button"; "disabled" := "" ]};
       HTMLButtonElement.listener := None;
       HTMLButtonElement.text := getButtonLabel button |}.

Definition renderNavigableButton (button : WizardButton.t) : Html :=
  Button
    {| HTMLButtonElement.classes := getButtonClasses button;
       HTMLButtonElement.attributes := {[ "type" := "button" ]};
       HTMLButtonElement.listener := Some (ListenNavigationEvent button);
       HTMLButtonElement.text := getButtonLabel button |}.

(** [match(button)] of ts-pattern: the first pattern that matches decides.
    [{ disabled: true }] asks for the property to be [true];
    [{ kind: P.union("close", "cancel") }] for one of the two kinds;
    [{ destination: P.string }] for a string, of any length. *)
Definition renderButton (button : WizardButton.t) : result Html :=
  match WizardButton.disabled button with
  | Some true => Ok (renderDisabledButton button)
  | _ =>
      match WizardButton.kind button with
      | close | cancel => Ok (renderCloseButton button)
      | _ =>
          match WizardButton.destination button with
          | Some _ => Ok (renderNavigableButton button)
          | None => Throw "Button type is not close, disabled, or navigable?"
          end
      end
  end.

Definition renderHeaderCancelIcon : Html :=
  Button
    {| HTMLButtonElement.classes :=
         [ ("pf-c-button", true); ("pf-m-plain", true); ("pf-c-wizard__close", true) ];
       HTMLButtonElement.attributes := {[ "type" := "button"; "aria-label" := msg "Close" ]};
       HTMLButtonElement.listener := Some ListenCloseEvent;
       HTMLButtonElement.text := "" |}.

Definition renderSidebarStep (step : WizardStepLabel.t) : Html :=
  let buttonClasses :=
    [ ("pf-c-wizard__nav-link", true);
      ("pf-m-current", WizardStepLabel.active step) ] in
  NavItem
    {| HTMLButtonElement.classes := buttonClasses;
       HTMLButtonElement.attributes :=
         boolAttribute "disabled" (negb (WizardStepLabel.enabled step))
         ∪ {[ "target" := WizardStepLabel.id step ]};
       HTMLButtonElement.listener := Some ListenSidebarNav;
       HTMLButtonElement.text := WizardStepLabel.label step |}.

Context {M : Methods}.

(** The first branch of the conditional in [render]: the whole modal box.
    The expressions of the template are evaluated in order: the cancel icon,
    the [map] over the step labels, [renderMain], which may throw, and the
    [map] over [this.buttons].  Neither [map] is run here. *)
Definition renderBody (this : t) : result Html :=
  let cancelIcon := if canCancel this then renderHeaderCancelIcon else nothing in
  let nav := MapRenderSidebarStep (WizardStepState.stepLabels (wizardStepState this)) in
  main ← renderMain this;
  let footer := MapRenderButton (buttons this) in
  Ok (ModalBox cancelIcon (wizardTitle this) (wizardDescription this) nav main footer).

Definition render (this : t) : result Html :=
  if strictEquals (WizardStepState.currentStep (wizardStepState this))
                  (getAttribute this "slot")
  then renderBody this
  else Ok nothing.

(** What lit does with the value of [render] when it commits it: it runs
    the [map]s of the modal box, the sidebar before the footer, calling
    [renderSidebarStep] on each step label and [renderButton] on each
    button.  An error of [renderButton] is thrown here, not in [render]. *)
Definition commit (html : Html) : result Html :=
  match html with
  | ModalBox icon title description (MapRenderSidebarStep steps) main
      (MapRenderButton buttons) =>
      let nav := Items (renderSidebarStep <$> steps) in
      footer ← traverse renderButton buttons;
      Ok (ModalBox icon title description nav main (Items footer))
  | _ => Ok html
  end.

(** A click on a rendered button: a disabled button receives none, any
    other has its listener called with the button as [ev.target]. *)
Definition click (el : HTMLButtonElement.t) : result (list DispatchedEvent) :=
  if HTMLButtonElement.isDisabled el then Ok []
  else
    let ev := {| Event.target := el; Event.propagationStopped := false |} in
    match HTMLButtonElement.listener el with
    | Some ListenCloseEvent => (onWizardCloseEvent ev).2
    | Some (ListenNavigationEvent button) => (onWizardNavigationEvent ev button).2
    | Some ListenSidebarNav => (onSidebarNav ev).2
    | None => Ok []
    end.

End Localized.

End WizardStep.

(** ** Sample inputs *)

Module Samples.

(** A client class: a main body, and a [next] and a [cancel] button. *)
Definition ClientStep : WizardStep.Methods :=
  {| WizardStep.buttons := λ _,
       [ {| WizardButton.kind := next; WizardButton.label := None;
            WizardButton.disabled := None;
            WizardButton.destination := Some "provider" |};
         {| WizardButton.kind := cancel; WizardButton.label := None;
            WizardButton.disabled := None;
            WizardButton.destination := None |} ];
     WizardStep.renderMain := λ _, Ok (Content "main");
     WizardStep.renderButtons := λ _, Ok nothing |}.

(** A client class with a main body and one button that no template
    renders: a [next] button without a destination. *)
Definition BadButtonStep : WizardStep.Methods :=
  {| WizardStep.buttons := λ _,
       [ {| WizardButton.kind := next; WizardButton.label := None;
            WizardButton.disabled := None;
            WizardButton.destination := None |} ];
     WizardStep.renderMain := λ _, Ok (Content "main");
     WizardStep.renderButtons := λ _, Ok nothing |}.

(** A step element with the given [name] property, [slot] attribute and
    ambient current step. *)
Definition step (name slot currentStep : option string) : WizardStep.t :=
  {| WizardStep.enabled := false;
     WizardStep.name := name;
     WizardStep.wizardStepState :=
       {| WizardStepState.currentStep := currentStep;
          WizardStepState.stepLabels := [] |};
     WizardStep.wizardTitle := "--unset--";
     WizardStep.wizardDescription := None;
     WizardStep.canCancel := false;
     WizardStep.id := "";
     WizardStep.label := "--unset--";
     WizardStep.hidden := false;
     WizardStep.attributes :=
       match slot with
       | Some s => {[ "slot" := s ]}
       | None => ∅
       end |}.

Definition button (kind : ButtonKind) (disabled : option bool) (destination : option string)
  : WizardButton.t :=
  {| WizardButton.kind := kind; WizardButton.label := None;
     WizardButton.disabled := disabled; WizardButton.destination := destination |}.

(** The sidebar entry of an enabled step that is not the current one. *)
Definition providerLabel : WizardStepLabel.t :=
  {| WizardStepLabel.id := "provider";
     WizardStepLabel.label := "Provider";
     WizardStepLabel.enabled := true;
     WizardStepLabel.active := false |}.

(** The source locale: [msg] gives back its argument. *)
Definition msg (s : string) : string := s.

End Samples.

(** * Properties *)

(** ** [Set<string>] *)

Lemma elem_of_Set_add_all (s xs : list string) (x : string) :
  x ∈ Set_add_all s xs ↔ x ∈ s ∨ x ∈ xs.
Proof.
  revert s. induction xs as [|y xs IH]; intros s; simpl.
  - rewrite elem_of_nil. tauto.
  - rewrite IH, elem_of_cons. case_bool_decide as Hy.
    + split; [tauto|]. intros [?|[->|?]]; auto.
    + rewrite elem_of_app, list_elem_of_singleton. tauto.
Qed.

Lemma NoDup_Set_add_all (s xs : list string) :
  NoDup s → NoDup (Set_add_all s xs).
Proof.
  revert s. induction xs as [|y xs IH]; intros s Hs; simpl; [done|].
  apply IH. case_bool_decide as Hy; [done|].
  apply NoDup_app. split_and!; [done| |apply NoDup_singleton].
  intros x Hx ->%list_elem_of_singleton. done.
Qed.

Lemma Set_add_all_present (s xs : list string) :
  (∀ x : string, x ∈ xs → x ∈ s) → Set_add_all s xs = s.
Proof.
  induction xs as [|y xs IH]; intros Hin; simpl; [done|].
  rewrite bool_decide_eq_true_2 by (apply Hin; left).
  apply IH. intros x Hx. apply Hin. by right.
Qed.

Lemma Set_add_all_app (s xs ys : list string) :
  Set_add_all s (xs ++ ys) = Set_add_all (Set_add_all s xs) ys.
Proof. revert s. induction xs as [|x xs IH]; intros s; simpl; [done|]. apply IH. Qed.

Lemma Set_add_all_fresh (s xs : list string) :
  NoDup (s ++ xs) → Set_add_all s xs = s ++ xs.
Proof.
  revert s. induction xs as [|x xs IH]; intros s Hnd; simpl.
  - by rewrite app_nil_r.
  - apply NoDup_app in Hnd as (Hs & Hdisj & Hxs).
    rewrite bool_decide_eq_false_2.
    + rewrite IH; [by rewrite <- app_assoc|].
      rewrite <- app_assoc. simpl. apply NoDup_app. split_and!; [done| |done].
      intros y Hy. by apply Hdisj.
    + intros Hx. apply (Hdisj x Hx). left.
Qed.

Lemma Set_new_NoDup (xs : list string) : NoDup xs → Set_new xs = xs.
Proof. intros Hnd. unfold Set_new. by rewrite Set_add_all_fresh. Qed.

Lemma NoDup_Set_new (xs : list string) : NoDup (Set_new xs).
Proof. apply NoDup_Set_add_all, NoDup_nil_2. Qed.

Lemma members_Set_new (xs : list string) : members (Set_new xs) = list_to_set xs.
Proof.
  apply set_eq. intros x. unfold members, Set_new.
  rewrite !elem_of_list_to_set, elem_of_Set_add_all, elem_of_nil. tauto.
Qed.

Lemma asArr_One {T} (v : T) : asArr (One v) = [v].
Proof. reflexivity. Qed.

Lemma asArr_Many {T} (vs : list T) : asArr (Many vs) = vs.
Proof. reflexivity. Qed.

(** ** The container *)

Module MainSpec.
Import AkApplicationWizardMain.

Lemma handleUpdate_snd (ev : WizardUpdateEvent) (this : t) :
  (handleUpdate ev this).2 =
    from_option applyStatus id (status (content ev))
      (from_option mergeUpdate id (update (content ev)) this).
Proof. unfold handleUpdate. simpl. by destruct (update _), (status _). Qed.

Lemma enabled_mergeUpdate (u : JSObject) (this : t) :
  enabled (mergeUpdate u this) = enabled this.
Proof. reflexivity. Qed.

Lemma members_applyStatus (st : Status) (this : t) :
  members (enabled (applyStatus st this)) =
    (members (enabled this) ∖ list_to_set (asArr (default (Many []) (disable st))))
    ∪ list_to_set (asArr (default (Many []) (enable st))).
Proof.
  unfold applyStatus. simpl. rewrite members_Set_new.
  apply set_eq. intros k. unfold members, Set_keys, includes.
  rewrite elem_of_list_to_set, elem_of_app, list_elem_of_filter.
  rewrite elem_of_union, elem_of_difference, !elem_of_list_to_set.
  rewrite negb_True, bool_decide_spec. tauto.
Qed.

Lemma wizardObject_mergeUpdate (u : JSObject) (this : t) :
  wizardObject (mergeUpdate u this) = spread (wizardObject this) u.
Proof. unfold wizardObject at 1, mergeUpdate. simpl. apply lookup_total_insert_eq. Qed.

Lemma wizardObject_applyStatus (st : Status) (this : t) :
  wizardObject (applyStatus st this) = wizardObject this.
Proof. reflexivity. Qed.

Lemma wizardObject_handleUpdate (ev : WizardUpdateEvent) (this : t) :
  wizardObject (handleUpdate ev this).2 =
    from_option (spread (wizardObject this)) (wizardObject this) (update (content ev)).
Proof.
  rewrite handleUpdate_snd.
  destruct (status (content ev)); cbn [from_option id];
    rewrite ?wizardObject_applyStatus;
    destruct (update (content ev)); cbn [from_option id];
    by rewrite ?wizardObject_mergeUpdate.
Qed.

Lemma fresh_loc_not_allocated (this : t) :
  objects this !! fresh (dom (objects this)) = None.
Proof. apply not_elem_of_dom, is_fresh. Qed.

Lemma lookup_spread (a b : JSObject) (k : string) :
  spread a b !! k = match b !! k with Some v => Some v | None => a !! k end.
Proof. unfold spread. rewrite lookup_union. by destruct (b !! k), (a !! k). Qed.

Lemma allocated_handleUpdate (ev : WizardUpdateEvent) (this : t) :
  allocated this → allocated (handleUpdate ev this).2.
Proof.
  intros Hal. rewrite handleUpdate_snd.
  assert (allocated (from_option mergeUpdate id (update (content ev)) this)) as H1.
  { destruct (update (content ev)); cbn [from_option id]; [|done].
    unfold allocated, mergeUpdate. simpl. rewrite lookup_insert_eq. eauto. }
  by destruct (status (content ev)).
Qed.

Lemma elem_of_enabled_applyStatus (st : Status) (this : t) (k : string) :
  k ∈ enabled (applyStatus st this)
  ↔ k ∈ asArr (default (Many []) (enable st))
    ∨ (k ∈ enabled this ∧ k ∉ asArr (default (Many []) (disable st))).
Proof.
  unfold applyStatus. cbn [enabled]. unfold Set_new, Set_keys, includes.
  rewrite elem_of_Set_add_all, elem_of_nil, elem_of_app, list_elem_of_filter.
  rewrite negb_True, bool_decide_spec. tauto.
Qed.

(** The list an [enable] or [disable] field stands for: none when the field
    is absent, the one identifier when it is a single identifier, the
    identifiers of the array when it is an array. *)
Lemma asArr_field (field : option (OneOrMany string)) :
  asArr (default (Many []) field)
  = match field with
    | None => []
    | Some (One k) => [k]
    | Some (Many ks) => ks
    end.
Proof. by destruct field as [[k|ks]|]. Qed.

(** C1. When the event carries a status, the members of the new [enabled]
    set are those of the old one without the identifiers of
    [status.disable], together with those of [status.enable], where each of
    the two fields stands for no identifier when absent, for the one
    identifier when it is a single one, and for the identifiers of the
    array when it is an array.  Hence an identifier that is disabled and
    not enabled by the status is not enabled afterwards; an identifier both
    enabled and disabled by one status is enabled afterwards; enabling what
    is enabled already, or disabling what is absent, changes nothing; and
    handling the same status a second time changes nothing either. *)
Theorem handleUpdate_status_enabled (ev : WizardUpdateEvent) (this : t) (st : Status) :
  status (content ev) = Some st →
  let this' := (handleUpdate ev this).2 in
  let E := match enable st with
           | None => []
           | Some (One k) => [k]
           | Some (Many ks) => ks
           end in
  let D := match disable st with
           | None => []
           | Some (One k) => [k]
           | Some (Many ks) => ks
           end in
  members (enabled this') = (members (enabled this) ∖ list_to_set D) ∪ list_to_set E
  ∧ (∀ k : string, k ∈ enabled this' ↔ k ∈ E ∨ (k ∈ enabled this ∧ k ∉ D))
  ∧ (∀ k : string, k ∈ D → k ∉ E → k ∉ enabled this')
  ∧ NoDup (enabled this')
  ∧ (∀ k : string, k ∈ E → k ∈ D → k ∈ members (enabled this'))
  ∧ ((∀ k : string, k ∈ E → k ∈ enabled this) → D = [] →
     members (enabled this') = members (enabled this))
  ∧ ((∀ k : string, k ∈ D → k ∉ enabled this) → E = [] →
     members (enabled this') = members (enabled this))
  ∧ members (enabled (handleUpdate ev this').2) = members (enabled this').
Proof.
  intros Hst this' E D.
  assert (E = asArr (default (Many []) (enable st))) as HE
    by (symmetry; apply asArr_field).
  assert (D = asArr (default (Many []) (disable st))) as HD
    by (symmetry; apply asArr_field).
  clearbody E D.
  assert (∀ that, members (enabled (handleUpdate ev that).2)
                  = (members (enabled that) ∖ list_to_set D) ∪ list_to_set E) as Heq.
  { intros that. rewrite handleUpdate_snd, Hst, HE, HD. cbn [from_option].
    rewrite members_applyStatus. by destruct (update (content ev)). }
  assert (∀ k : string, k ∈ enabled this' ↔ k ∈ E ∨ (k ∈ enabled this ∧ k ∉ D)) as Hmem.
  { intros k. subst this'. rewrite handleUpdate_snd, Hst, HE, HD. cbn [from_option].
    rewrite elem_of_enabled_applyStatus. by destruct (update (content ev)). }
  split_and!.
  - apply Heq.
  - exact Hmem.
  - intros k HkD HkE Hk. apply Hmem in Hk. tauto.
  - subst this'. rewrite handleUpdate_snd, Hst. cbn [from_option].
    apply NoDup_Set_new.
  - intros k HkE _. unfold members. rewrite elem_of_list_to_set. apply Hmem. by left.
  - intros Hin HDnil. subst this'. rewrite Heq, HDnil. apply set_eq. intros k.
    rewrite elem_of_union, elem_of_difference, !elem_of_list_to_set.
    unfold members. rewrite elem_of_list_to_set, elem_of_nil. naive_solver.
  - intros Hout HEnil. subst this'. rewrite Heq, HEnil. apply set_eq. intros k.
    rewrite elem_of_union, elem_of_difference, !elem_of_list_to_set.
    unfold members. rewrite elem_of_list_to_set, elem_of_nil. naive_solver.
  - rewrite (Heq this'). subst this'. rewrite Heq. set_solver.
Qed.

(** The example of the specification: [{enable: ["provider"]}], then
    [{disable: ["provider"], enable: ["provider"]}], leaves ["provider"]
    enabled. *)
Example enable_then_disable_and_enable :
  let ev1 := {| content := {| update := None;
                              status := Some {| enable := Some (Many ["provider"]);
                                                disable := None |} |};
                propagationStopped := false |} in
  let ev2 := {| content := {| update := None;
                              status := Some {| enable := Some (Many ["provider"]);
                                                disable := Some (Many ["provider"]) |} |};
                propagationStopped := false |} in
  enabled (handleUpdates [ev1; ev2] init) = ["application"; "provider"].
Proof. vm_compute. reflexivity. Qed.

Lemma handleUpdate_status_enabled_witness :
  let ev := {| content := {| update := None;
                             status := Some {| enable := Some (One "provider");
                                               disable := Some (Many ["provider"; "submit"]) |} |};
               propagationStopped := false |} in
  let this := {| objects := {[ 0%nat := freshWizardState ]};
                 wizard := 0%nat;
                 enabled := ["application"; "provider"; "submit"] |} in
  ("submit" ∉ enabled (handleUpdate ev this).2)
  ∧ "provider" ∈ members (enabled (handleUpdate ev this).2)
  ∧ members (enabled (handleUpdate ev this).2)
    = (members (enabled this) ∖ list_to_set ["provider"; "submit"])
      ∪ list_to_set ["provider"].
Proof.
  intros ev this.
  destruct (handleUpdate_status_enabled ev this
              {| enable := Some (One "provider");
                 disable := Some (Many ["provider"; "submit"]) |} eq_refl)
    as (Heq & _ & Hremoved & _ & Hwins & _).
  split_and!.
  - apply Hremoved.
    + apply (bool_decide_unpack _). vm_compute. exact I.
    + apply (bool_decide_unpack _). vm_compute. exact I.
  - apply Hwins; apply (bool_decide_unpack _); vm_compute; exact I.
  - exact Heq.
Defined.

(** The same on the lists themselves: the single identifier of [enable] is
    one step, the array of [disable] removes each of its steps. *)
Example disable_array_enable_single :
  enabled (handleUpdate
             {| content := {| update := None;
                              status := Some {| enable := Some (One "provider");
                                                disable := Some (Many ["provider"; "submit"]) |} |};
                propagationStopped := false |}
             {| objects := {[ 0%nat := freshWizardState ]};
                wizard := 0%nat;
                enabled := ["application"; "provider"; "submit"] |}).2
  = ["application"; "provider"].
Proof. vm_compute. reflexivity. Qed.

(** C2. When the event carries an update, the object [this.wizard] points
    to afterwards has, at each top-level key of the update, the value of the
    update as it is, and at every other key the value it had; it is a new
    object: the reference changes, and every object allocated before, the
    old state among them, is what it was. *)
Theorem handleUpdate_update_shallow_merge
    (ev : WizardUpdateEvent) (this : t) (u : JSObject) :
  update (content ev) = Some u →
  allocated this →
  let this' := (handleUpdate ev this).2 in
  (∀ k v, u !! k = Some v → wizardObject this' !! k = Some v)
  ∧ (∀ k, u !! k = None → wizardObject this' !! k = wizardObject this !! k)
  ∧ objects this' !! wizard this' = Some (spread (wizardObject this) u)
  ∧ wizard this' ≠ wizard this
  ∧ objects this' !! wizard this = Some (wizardObject this)
  ∧ (∀ l o, objects this !! l = Some o → objects this' !! l = Some o).
Proof.
  intros Hu [w Hw] this'.
  assert (wizardObject this' = spread (wizardObject this) u) as Hobj.
  { subst this'. by rewrite wizardObject_handleUpdate, Hu. }
  assert (objects this' = objects (mergeUpdate u this)
          ∧ wizard this' = wizard (mergeUpdate u this)) as [Hobjs Hwiz].
  { subst this'. rewrite handleUpdate_snd, Hu. cbn [from_option].
    by destruct (status (content ev)). }
  assert (∀ l o, objects this !! l = Some o → objects this' !! l = Some o) as Hold.
  { intros l o Hl. rewrite Hobjs. unfold mergeUpdate. simpl.
    rewrite lookup_insert_ne; [done|].
    intros Heq. pose proof (fresh_loc_not_allocated this) as Hfr.
    rewrite Heq in Hfr. congruence. }
  split_and!.
  - intros k v Hk. by rewrite Hobj, lookup_spread, Hk.
  - intros k Hk. by rewrite Hobj, lookup_spread, Hk.
  - rewrite Hobjs, Hwiz. unfold mergeUpdate. simpl. apply lookup_insert_eq.
  - rewrite Hwiz. unfold mergeUpdate. simpl. intros Heq.
    pose proof (fresh_loc_not_allocated this) as Hfr.
    rewrite Heq in Hfr. congruence.
  - apply Hold. unfold wizardObject. by rewrite (lookup_total_correct _ _ _ Hw).
  - exact Hold.
Qed.

(** The example of the specification: [{app: {slug: "y"}}] merged into
    [{app: {name: "x"}}] leaves [app] equal to [{slug: "y"}]. *)
Example shallow_merge_replaces_nested :
  wizardObject (handleUpdate nested_event nested_before).2 !! "app"
  = Some (VObj {[ "slug" := VStr "y" ]}).
Proof. vm_compute. reflexivity. Qed.

Lemma handleUpdate_update_shallow_merge_witness :
  wizardObject (handleUpdate nested_event nested_before).2 !! "app"
  = Some (VObj {[ "slug" := VStr "y" ]})
  ∧ wizard (handleUpdate nested_event nested_before).2 ≠ wizard nested_before.
Proof.
  assert (allocated nested_before) as Hal by (vm_compute; eauto).
  pose proof (handleUpdate_update_shallow_merge nested_event nested_before
                {[ "app" := VObj {[ "slug" := VStr "y" ]} ]} eq_refl Hal)
    as (Hin & _ & _ & Hne & _).
  split; [|exact Hne].
  apply Hin. vm_compute. reflexivity.
Defined.

(** C10. An event that carries neither an update nor a status leaves the
    component as it was, reference, store and enabled set; the event comes
    back with its content untouched and its propagation stopped. *)
Theorem handleUpdate_empty_content (ev : WizardUpdateEvent) (this : t) :
  update (content ev) = None →
  status (content ev) = None →
  handleUpdate ev this = (stopPropagation ev, this)
  ∧ content (stopPropagation ev) = content ev
  ∧ propagationStopped (stopPropagation ev) = true.
Proof.
  intros Hu Hs. unfold handleUpdate. rewrite Hu, Hs. done.
Qed.

Lemma handleUpdate_empty_content_witness :
  let ev := {| content := {| update := None; status := None |};
               propagationStopped := false |} in
  handleUpdate ev init = (stopPropagation ev, init).
Proof.
  intros ev. exact (proj1 (handleUpdate_empty_content ev init eq_refl eq_refl)).
Defined.

Lemma handleUpdates_cons (ev : WizardUpdateEvent) (evs : list WizardUpdateEvent) (this : t) :
  handleUpdates (ev :: evs) this = handleUpdates evs (handleUpdate ev this).2.
Proof. reflexivity. Qed.

(** C3, as the code has it. After any sequence of events the wizard state
    is the fold of the shallow merge over the updates carried, in order,
    from the state before; so each top-level key has the value of the last
    update that carries it, whole, or else its value before. *)
Theorem handleUpdates_wizard_fold (evs : list WizardUpdateEvent) (this : t) :
  wizardObject (handleUpdates evs this) = foldl spread (wizardObject this) (updatesOf evs)
  ∧ ∀ k, wizardObject (handleUpdates evs this) !! k
         = lastWrite k (wizardObject this !! k) (updatesOf evs).
Proof.
  revert this. induction evs as [|ev evs IH]; intros this.
  - split; reflexivity.
  - rewrite handleUpdates_cons. destruct (IH (handleUpdate ev this).2) as [IH1 IH2].
    rewrite wizardObject_handleUpdate in IH1.
    assert (∀ k, wizardObject (handleUpdate ev this).2 !! k
                 = from_option (λ u, match u !! k with
                                     | Some v => Some v
                                     | None => wizardObject this !! k
                                     end)
                     (wizardObject this !! k) (update (content ev))) as Hk.
    { intros k. rewrite wizardObject_handleUpdate.
      destruct (update (content ev)); cbn [from_option]; [apply lookup_spread|done]. }
    unfold updatesOf in *. cbn [omap list_omap].
    split.
    + rewrite IH1. by destruct (update (content ev)).
    + intros k. rewrite IH2, Hk. unfold lastWrite.
      by destruct (update (content ev)).
Qed.

(** C3, as worded. The state after the one update [{app: {slug: "y"}}] on
    [{app: {name: "x"}}] is not the deep merge of the two: the deep merge
    keeps [name] under [app], the code does not. *)
Lemma handleUpdates_not_deep_merge :
  wizardObject (handleUpdates [nested_event] nested_before)
  ≠ foldl deep_merge (wizardObject nested_before) (updatesOf [nested_event]).
Proof.
  intros Heq.
  apply (f_equal (λ o : JSObject, nestedProperty o "app" "name")) in Heq.
  vm_compute in Heq. discriminate Heq.
Qed.

End MainSpec.

(** ** The step base class *)

Module StepSpec.
Import WizardStep.

Lemma falsy_false (v : option string) :
  falsy v = false ↔ ∃ s, v = Some s ∧ s ≠ "".
Proof.
  destruct v as [s|]; simpl.
  - rewrite bool_decide_eq_false. naive_solver.
  - naive_solver.
Qed.

Lemma falsy_true (v : option string) :
  falsy v = true ↔ v = None ∨ v = Some "".
Proof.
  destruct v as [s|]; simpl.
  - rewrite bool_decide_eq_true. naive_solver.
  - naive_solver.
Qed.

Lemma strictEquals_true (a b : option string) :
  strictEquals a b = true ↔ ∃ s, a = Some s ∧ b = Some s.
Proof.
  destruct a as [x|], b as [y|]; simpl; try naive_solver.
  rewrite bool_decide_eq_true. naive_solver.
Qed.

Lemma isNavigable_true (b : WizardButton.t) :
  isNavigable b = true ↔ ∃ d, WizardButton.destination b = Some d ∧ d ≠ "".
Proof.
  unfold isNavigable. destruct (WizardButton.destination b) as [d|].
  - rewrite bool_decide_eq_true. split.
    + intros Hlen. exists d. split; [done|]. intros ->. simpl in Hlen. lia.
    + intros (d' & [= <-] & Hne). destruct d; [done|simpl; lia].
  - naive_solver.
Qed.

Section WithLocale.
Context (msg : string → string).

Lemma renderBody_not_nothing `{M : Methods} (this : t) :
  renderBody msg this ≠ Ok nothing.
Proof.
  unfold renderBody. destruct (renderMain this) as [main|m]; simpl; [|done].
  destruct (traverse (renderButton msg) (buttons this)); simpl; done.
Qed.

(** C4, as the code has it. [render] gives the full body exactly when the
    ambient current step is a string equal to the [slot] attribute of the
    host, and [nothing] otherwise; so for a step whose name is its slot
    attribute, the full body exactly when the current step is its name. *)
Theorem render_gated_by_slot `{M : Methods} (this : t) :
  let current := WizardStepState.currentStep (wizardStepState this) in
  (render msg this = renderBody msg this
   ↔ ∃ s, current = Some s ∧ getAttribute this "slot" = Some s)
  ∧ (render msg this = Ok nothing
     ↔ ¬ ∃ s, current = Some s ∧ getAttribute this "slot" = Some s)
  ∧ (∀ n, name this = Some n → getAttribute this "slot" = Some n →
       (render msg this = renderBody msg this ↔ current = name this)
       ∧ (current ≠ name this → render msg this = Ok nothing)).
Proof.
  intros current.
  pose proof (renderBody_not_nothing this) as Hbody.
  pose proof (strictEquals_true current (getAttribute this "slot")) as Hse.
  assert (render msg this =
          if strictEquals current (getAttribute this "slot")
          then renderBody msg this else Ok nothing) as Hr by reflexivity.
  destruct (strictEquals current (getAttribute this "slot")) eqn:Heq.
  - assert (∃ s, current = Some s ∧ getAttribute this "slot" = Some s) as Hex
      by (by apply Hse).
    split_and!.
    + by rewrite Hr.
    + rewrite Hr. split; [intros ?; congruence|intros Hn; by destruct Hn].
    + intros n Hn Hslot. rewrite Hr, Hn. destruct Hex as (s & Hc & Hs).
      split; [split; [congruence|done]|congruence].
  - assert (¬ ∃ s, current = Some s ∧ getAttribute this "slot" = Some s) as Hnex.
    { intros Hex. apply Hse in Hex. congruence. }
    split_and!.
    + rewrite Hr. split; [intros ?; exfalso; by apply Hbody|done].
    + by rewrite Hr.
    + intros n Hn Hslot. rewrite Hr, Hn. split; [|done].
      split; [intros ?; exfalso; by apply Hbody|].
      intros Hc. exfalso. apply Hnex. exists n. done.
Qed.

End WithLocale.

(** C4, as worded. A step named ["application"] in the slot ["provider"]
    renders nothing while the current step is ["application"], its name,
    and renders its body while the current step is ["provider"], which is
    not its name. *)
Lemma render_not_gated_by_name :
  let named := Samples.step (Some "application") (Some "provider") in
  (name (named (Some "application"))
   = WizardStepState.currentStep (wizardStepState (named (Some "application")))
   ∧ render (M := Samples.ClientStep) Samples.msg (named (Some "application"))
     = Ok nothing)
  ∧ (name (named (Some "provider"))
     ≠ WizardStepState.currentStep (wizardStepState (named (Some "provider")))
     ∧ render (M := Samples.ClientStep) Samples.msg (named (Some "provider"))
       ≠ Ok nothing).
Proof.
  intros named. split; split.
  - reflexivity.
  - vm_compute. reflexivity.
  - discriminate.
  - vm_compute. discriminate.
Qed.

Lemma render_gated_by_slot_witness :
  let this := Samples.step (Some "application") (Some "application") (Some "application") in
  render (M := Samples.ClientStep) Samples.msg this
  = renderBody (M := Samples.ClientStep) Samples.msg this.
Proof.
  intros this.
  pose proof (render_gated_by_slot (M := Samples.ClientStep) Samples.msg this)
    as (_ & _ & Hname).
  destruct (Hname "application" eq_refl eq_refl) as [Hiff _].
  apply Hiff. reflexivity.
Defined.

(** C5. A button with [disabled: true] is rendered by
    [renderDisabledButton], whatever its kind and whether or not it has a
    destination: the result carries the [disabled] attribute and no
    listener, is neither the close nor the navigable rendering, and a click
    on it dispatches nothing. *)
Theorem renderButton_disabled_first (msg : string → string) (button : WizardButton.t) :
  WizardButton.disabled button = Some true →
  renderButton msg button = Ok (renderDisabledButton msg button)
  ∧ renderButton msg button ≠ Ok (renderCloseButton msg button)
  ∧ renderButton msg button ≠ Ok (renderNavigableButton msg button)
  ∧ ∃ el, renderDisabledButton msg button = Button el
          ∧ HTMLButtonElement.isDisabled el = true
          ∧ HTMLButtonElement.listener el = None
          ∧ click el = Ok [].
Proof.
  intros Hd. unfold renderButton. rewrite Hd. split_and!.
  - reflexivity.
  - discriminate.
  - unfold renderDisabledButton, renderNavigableButton. intros [= Hattr].
  - eexists. split; [reflexivity|]. split_and!; reflexivity.
Qed.

Lemma renderButton_disabled_first_witness :
  renderButton Samples.msg (Samples.button cancel (Some true) (Some "provider"))
  = Ok (renderDisabledButton Samples.msg
          (Samples.button cancel (Some true) (Some "provider"))).
Proof.
  exact (proj1 (renderButton_disabled_first Samples.msg
                  (Samples.button cancel (Some true) (Some "provider")) eq_refl)).
Defined.

(** C6. A button of kind [close] or [cancel] whose [disabled] is absent or
    false is rendered by [renderCloseButton], with or without a
    destination: never by [renderNavigableButton] or
    [renderDisabledButton], and a click on it dispatches the close event
    and no navigation. *)
Theorem renderButton_close_before_destination
    (msg : string → string) (button : WizardButton.t) :
  WizardButton.kind button = close ∨ WizardButton.kind button = cancel →
  WizardButton.disabled button = None ∨ WizardButton.disabled button = Some false →
  renderButton msg button = Ok (renderCloseButton msg button)
  ∧ renderButton msg button ≠ Ok (renderNavigableButton msg button)
  ∧ renderButton msg button ≠ Ok (renderDisabledButton msg button)
  ∧ ∃ el, renderCloseButton msg button = FooterCancel el
          ∧ click el = Ok [WizardCloseEvent].
Proof.
  intros Hk Hd.
  assert (renderButton msg button = Ok (renderCloseButton msg button)) as Hr.
  { unfold renderButton. destruct Hd as [-> | ->], Hk as [-> | ->]; reflexivity. }
  rewrite Hr. split_and!.
  - reflexivity.
  - discriminate.
  - discriminate.
  - eexists. split; [reflexivity|]. reflexivity.
Qed.

Lemma renderButton_close_before_destination_witness :
  renderButton Samples.msg (Samples.button cancel (Some false) (Some "provider"))
  = Ok (renderCloseButton Samples.msg
          (Samples.button cancel (Some false) (Some "provider"))).
Proof.
  exact (proj1 (renderButton_close_before_destination Samples.msg
                  (Samples.button cancel (Some false) (Some "provider"))
                  (or_intror eq_refl) (or_intror eq_refl))).
Defined.

Lemma handleNavigationEvent_destination (button : WizardButton.t) (d : string) :
  WizardButton.destination button = Some d → d ≠ "" →
  handleNavigationEvent button = Ok [WizardNavigationEvent (Some d)].
Proof.
  intros Hd Hne. unfold handleNavigationEvent.
  assert (isNavigable button = true) as -> by (apply isNavigable_true; eauto).
  simpl. by rewrite Hd.
Qed.

(** A navigable button that is rendered and clicked raises the navigation
    request with its destination. *)
Lemma click_navigable_button (msg : string → string) (button : WizardButton.t) (d : string) :
  WizardButton.destination button = Some d → d ≠ "" →
  ∃ el, renderNavigableButton msg button = Button el
        ∧ click el = Ok [WizardNavigationEvent (Some d)].
Proof.
  intros Hd Hne. eexists. split; [reflexivity|].
  unfold click. simpl.
  by apply handleNavigationEvent_destination.
Qed.

(** C7. [handleNavigationEvent] throws exactly when the button is not
    navigable; a button is navigable exactly when it has a destination that
    is not the empty string; and for a navigable button the one event
    dispatched is the navigation event with that destination. *)
Theorem handleNavigationEvent_navigable (button : WizardButton.t) :
  (throws (handleNavigationEvent button) ↔ isNavigable button = false)
  ∧ (isNavigable button = true
     ↔ ∃ d, WizardButton.destination button = Some d ∧ d ≠ "")
  ∧ (∀ d, WizardButton.destination button = Some d → d ≠ "" →
       handleNavigationEvent button = Ok [WizardNavigationEvent (Some d)]).
Proof.
  split_and!.
  - unfold handleNavigationEvent, throws.
    destruct (isNavigable button); simpl; split.
    + intros [m Hm]. discriminate.
    + discriminate.
    + done.
    + eauto.
  - apply isNavigable_true.
  - apply handleNavigationEvent_destination.
Qed.

Lemma handleNavigationEvent_navigable_witness :
  handleNavigationEvent (Samples.button next None (Some "provider"))
  = Ok [WizardNavigationEvent (Some "provider")].
Proof.
  apply (proj2 (proj2 (handleNavigationEvent_navigable
                         (Samples.button next None (Some "provider"))))).
  - reflexivity.
  - discriminate.
Defined.

Lemma click_sidebar_entry (step : WizardStepLabel.t) :
  WizardStepLabel.enabled step = true →
  ∃ el, renderSidebarStep step = NavItem el
        ∧ HTMLButtonElement.attributes el !! "target" = Some (WizardStepLabel.id step)
        ∧ HTMLButtonElement.attributes el !! "value" = None
        ∧ click el = Ok [WizardNavigationEvent (Some "")].
Proof.
  intros Hen. eexists. split; [reflexivity|].
  unfold click, HTMLButtonElement.isDisabled, onSidebarNav, HTMLButtonElement.value.
  simpl. rewrite Hen. simpl.
  rewrite (left_id_L ∅ (∪)).
  rewrite lookup_singleton_eq.
  rewrite !lookup_singleton_ne by discriminate.
  split_and!; [done|done|].
  rewrite bool_decide_eq_false_2; [done|]. by intros [? [=]].
Qed.

(** C8, on the code. The sidebar entry of the enabled step ["provider"]
    carries the identifier in its [target] attribute and has no [value]
    attribute; [onSidebarNav] reads the [value] of the button, so a click
    dispatches a navigation event whose destination is the empty string,
    not ["provider"]. *)
Theorem click_sidebar_provider :
  ∃ el, renderSidebarStep Samples.providerLabel = NavItem el
        ∧ HTMLButtonElement.attributes el !! "target" = Some "provider"
        ∧ HTMLButtonElement.value el = ""
        ∧ click el = Ok [WizardNavigationEvent (Some "")]
        ∧ click el ≠ Ok [WizardNavigationEvent (Some (WizardStepLabel.id Samples.providerLabel))].
Proof.
  eexists. split; [reflexivity|]. split_and!.
  - vm_compute. reflexivity.
  - vm_compute. reflexivity.
  - vm_compute. reflexivity.
  - vm_compute. discriminate.
Qed.

Lemma name_superConnectedCallback (provided : option WizardStepState.t) (this : t) :
  name (superConnectedCallback provided this) = name this
  ∧ attributes (superConnectedCallback provided this) = attributes this
  ∧ enabled (superConnectedCallback provided this) = enabled this
  ∧ wizardStepState (superConnectedCallback provided this)
    = default (wizardStepState this) provided.
Proof. by destruct provided. Qed.

Lemma connectedCallback_cases (provided : option WizardStepState.t) (this : t) :
  connectedCallback provided this =
    if falsy (name this) then
      if falsy (getAttribute this "slot")
      then Throw "Steps must have a unique slot attribute."
      else Ok {| enabled := enabled this; name := getAttribute this "slot";
                 wizardStepState := default (wizardStepState this) provided;
                 wizardTitle := wizardTitle this;
                 wizardDescription := wizardDescription this;
                 canCancel := canCancel this;
                 id := id this; label := label this; hidden := hidden this;
                 attributes := attributes this |}
    else Ok (superConnectedCallback provided this).
Proof. by destruct provided. Qed.

(** C9, as the code has it. A step whose name is unset or empty takes its
    [slot] attribute as name when that is a non-empty string, the
    attributes staying as they are and the step state being the one
    provided, if any; it throws when the attribute is absent or empty; and
    a step with a non-empty name keeps it, and is returned unchanged but
    for the step state provided. *)
Theorem connectedCallback_name (provided : option WizardStepState.t) (this : t) :
  (∀ s, falsy (name this) = true → getAttribute this "slot" = Some s → s ≠ "" →
     ∃ this', connectedCallback provided this = Ok this'
              ∧ name this' = Some s
              ∧ attributes this' = attributes this
              ∧ wizardStepState this' = default (wizardStepState this) provided)
  ∧ (falsy (name this) = true → falsy (getAttribute this "slot") = true →
     connectedCallback provided this = Throw "Steps must have a unique slot attribute.")
  ∧ (name this = None → getAttribute this "slot" = None →
     throws (connectedCallback provided this))
  ∧ (∀ n, name this = Some n → n ≠ "" →
       connectedCallback provided this = Ok (superConnectedCallback provided this)
       ∧ name (superConnectedCallback provided this) = Some n
       ∧ attributes (superConnectedCallback provided this) = attributes this
       ∧ connectedCallback None this = Ok this).
Proof.
  rewrite connectedCallback_cases. split_and!.
  - intros s Hn Hs Hne. rewrite Hn.
    assert (falsy (getAttribute this "slot") = false) as ->
      by (apply falsy_false; eauto).
    eexists. split; [reflexivity|]. simpl. by rewrite Hs.
  - by intros -> ->.
  - intros -> ->. simpl. by eexists.
  - intros n Hn Hne.
    assert (falsy (name this) = false) as Hf by (apply falsy_false; eauto).
    rewrite connectedCallback_cases, Hf.
    destruct (name_superConnectedCallback provided this) as (-> & -> & _).
    done.
Qed.

Lemma connectedCallback_name_witness :
  ∃ this', connectedCallback None (Samples.step None (Some "provider") None) = Ok this'
           ∧ name this' = Some "provider".
Proof.
  destruct (proj1 (connectedCallback_name None (Samples.step None (Some "provider") None))
              "provider" eq_refl eq_refl) as (this' & Hok & Hname & _).
  - discriminate.
  - exists this'. split; [exact Hok|exact Hname].
Defined.

(** C9, as worded. A step without a name whose [slot] attribute is there
    and empty does not take the attribute as its name: connecting it throws.
    A step whose name was set to the empty string does not keep it: it
    takes the slot. *)
Lemma connectedCallback_empty_strings :
  (name (Samples.step None (Some "") None) = None
   ∧ getAttribute (Samples.step None (Some "") None) "slot" = Some ""
   ∧ connectedCallback None (Samples.step None (Some "") None)
     = Throw "Steps must have a unique slot attribute.")
  ∧ (name (Samples.step (Some "") (Some "provider") None) = Some ""
     ∧ ∃ this', connectedCallback None (Samples.step (Some "") (Some "provider") None)
                = Ok this'
                ∧ name this' = Some "provider").
Proof.
  split.
  - split_and!; vm_compute; reflexivity.
  - split; [reflexivity|]. eexists. split; vm_compute; reflexivity.
Qed.

End StepSpec.

(** * Further properties of the container *)

Module MainExtra.
Import AkApplicationWizardMain MainSpec.

Lemma Set_add_all_appends (s xs : list string) :
  ∃ added, Set_add_all s xs = s ++ added
           ∧ ∀ k : string, k ∈ added ↔ k ∈ xs ∧ k ∉ s.
Proof.
  revert s. induction xs as [|x xs IH]; intros s; simpl.
  - exists []. rewrite app_nil_r. split; [done|].
    intros k. rewrite !elem_of_nil. tauto.
  - case_bool_decide as Hx.
    + destruct (IH s) as (added & Heq & Hadded). exists added. split; [done|].
      intros k. rewrite Hadded, elem_of_cons. split; [tauto|].
      intros [[-> | Hk] Hns]; [done|tauto].
    + destruct (IH (s ++ [x])) as (added & Heq & Hadded).
      exists (x :: added). split; [by rewrite Heq, <- app_assoc|].
      intros k. rewrite !elem_of_cons, Hadded, elem_of_app, list_elem_of_singleton.
      destruct (decide (k = x)) as [-> | Hne]; [tauto|]. tauto.
Qed.

Lemma Set_new_app_NoDup (l xs : list string) :
  NoDup l → Set_new (l ++ xs) = Set_add_all l xs.
Proof.
  intros Hl. unfold Set_new. rewrite Set_add_all_app.
  f_equal. by apply Set_new_NoDup.
Qed.

Lemma NoDup_surviving (D l : list string) :
  NoDup l → NoDup (filter (λ k, negb (includes D k)) l).
Proof. apply NoDup_filter. Qed.

Lemma elem_of_surviving (D l : list string) (k : string) :
  k ∈ filter (λ k, negb (includes D k)) l ↔ k ∈ l ∧ k ∉ D.
Proof.
  rewrite list_elem_of_filter. unfold includes.
  rewrite negb_True, bool_decide_spec. tauto.
Qed.

Lemma surviving_all (D l : list string) :
  (∀ k : string, k ∈ D → k ∉ l) → filter (λ k, negb (includes D k)) l = l.
Proof.
  intros HD. induction l as [|x l IH]; [done|].
  rewrite filter_cons_True.
  - f_equal. apply IH. intros k Hk Hl. apply (HD k Hk). by right.
  - unfold includes. rewrite negb_True, bool_decide_spec.
    intros Hx. apply (HD x Hx). left.
Qed.

Lemma enabled_handleUpdate (ev : WizardUpdateEvent) (this : t) :
  enabled (handleUpdate ev this).2 =
    from_option (λ st, enabled (applyStatus st this)) (enabled this) (status (content ev)).
Proof.
  rewrite handleUpdate_snd.
  destruct (status (content ev)), (update (content ev)); reflexivity.
Qed.

Lemma store_handleUpdate (ev : WizardUpdateEvent) (this : t) :
  objects (handleUpdate ev this).2 =
    from_option (λ u, objects (mergeUpdate u this)) (objects this) (update (content ev))
  ∧ wizard (handleUpdate ev this).2 =
    from_option (λ u, wizard (mergeUpdate u this)) (wizard this) (update (content ev)).
Proof.
  rewrite handleUpdate_snd.
  destruct (status (content ev)), (update (content ev)); split; reflexivity.
Qed.

Lemma objects_handleUpdate_old (ev : WizardUpdateEvent) (this : t) (l : loc) (o : JSObject) :
  objects this !! l = Some o → objects (handleUpdate ev this).2 !! l = Some o.
Proof.
  intros Hl. rewrite (proj1 (store_handleUpdate ev this)).
  destruct (update (content ev)) as [u|]; cbn [from_option]; [|done].
  unfold mergeUpdate. simpl. rewrite lookup_insert_ne; [done|].
  intros Heq. pose proof (fresh_loc_not_allocated this) as Hfr.
  rewrite Heq in Hfr. congruence.
Qed.

(** X1. Handling a status keeps the steps that survive it in the order
    they had, in front, and puts the newly enabled steps behind them: the
    new [enabled] is the old one filtered by [disable], followed by exactly
    those identifiers of [enable] that did not survive. *)
Theorem handleUpdate_status_order (ev : WizardUpdateEvent) (this : t) (st : Status) :
  status (content ev) = Some st →
  NoDup (enabled this) →
  let E := asArr (default (Many []) (enable st)) in
  let D := asArr (default (Many []) (disable st)) in
  ∃ added,
    enabled (handleUpdate ev this).2
    = filter (λ k, negb (includes D k)) (enabled this) ++ added
    ∧ NoDup (enabled (handleUpdate ev this).2)
    ∧ ∀ k : string, k ∈ added ↔ k ∈ E ∧ ¬ (k ∈ enabled this ∧ k ∉ D).
Proof.
  intros Hst Hnd E D. rewrite enabled_handleUpdate, Hst. cbn [from_option].
  unfold applyStatus. cbn [enabled]. fold E D. unfold Set_keys.
  rewrite Set_new_app_NoDup by by apply NoDup_surviving.
  destruct (Set_add_all_appends (filter (λ k, negb (includes D k)) (enabled this)) E)
    as (added & Heq & Hadded).
  exists added. split_and!.
  - exact Heq.
  - apply NoDup_Set_add_all. by apply NoDup_surviving.
  - intros k. rewrite Hadded, elem_of_surviving. tauto.
Qed.

Lemma handleUpdate_status_order_witness :
  ∃ added,
    enabled (handleUpdate
               {| content := {| update := None;
                                status := Some {| enable := Some (Many ["submit"; "application"]);
                                                  disable := Some (One "provider") |} |};
                  propagationStopped := false |}
               {| objects := ∅; wizard := 0%nat;
                  enabled := ["application"; "provider"; "provider-choice"] |}).2
    = ["application"; "provider-choice"] ++ added.
Proof.
  destruct (handleUpdate_status_order
              {| content := {| update := None;
                               status := Some {| enable := Some (Many ["submit"; "application"]);
                                                 disable := Some (One "provider") |} |};
                 propagationStopped := false |}
              {| objects := ∅; wizard := 0%nat;
                 enabled := ["application"; "provider"; "provider-choice"] |}
              {| enable := Some (Many ["submit"; "application"]);
                 disable := Some (One "provider") |}
              eq_refl) as (added & Heq & _).
  - cbn [enabled]. apply (bool_decide_unpack _). vm_compute. exact I.
  - exists added. exact Heq.
Defined.



(** X3. What each half of the content leaves alone: without an update the
    store and the reference [this.wizard] are the same afterwards, whatever
    the status; without a status the [enabled] set is the same, whatever
    the update; and an update never changes [enabled] on its own account. *)
Theorem handleUpdate_frame (ev : WizardUpdateEvent) (this : t) :
  (update (content ev) = None →
     objects (handleUpdate ev this).2 = objects this
     ∧ wizard (handleUpdate ev this).2 = wizard this)
  ∧ (status (content ev) = None → enabled (handleUpdate ev this).2 = enabled this)
  ∧ enabled (handleUpdate ev this).2
    = enabled (handleUpdate {| content := {| update := None; status := status (content ev) |};
                               propagationStopped := propagationStopped ev |} this).2.
Proof.
  split_and!.
  - intros Hu. destruct (store_handleUpdate ev this) as [-> ->]. by rewrite Hu.
  - intros Hs. by rewrite enabled_handleUpdate, Hs.
  - by rewrite !enabled_handleUpdate.
Qed.

Lemma handleUpdate_frame_witness :
  wizard (handleUpdate
            {| content := {| update := None;
                             status := Some {| enable := Some (One "provider");
                                               disable := None |} |};
               propagationStopped := false |} init).2
  = wizard init.
Proof.
  exact (proj2 (proj1 (handleUpdate_frame
                         {| content := {| update := None;
                                          status := Some {| enable := Some (One "provider");
                                                            disable := None |} |};
                            propagationStopped := false |} init) eq_refl)).
Defined.

(** X4. An event that carries an update and a status leaves the component
    as two events would, one with the update alone and one with the status
    alone, handled in either order. *)
Theorem handleUpdate_splits (u : option JSObject) (st : option Status) (p : bool) (this : t) :
  let both := {| content := {| update := u; status := st |}; propagationStopped := p |} in
  let onlyUpdate := {| content := {| update := u; status := None |};
                       propagationStopped := p |} in
  let onlyStatus := {| content := {| update := None; status := st |};
                       propagationStopped := p |} in
  (handleUpdate both this).2 = handleUpdates [onlyUpdate; onlyStatus] this
  ∧ (handleUpdate both this).2 = handleUpdates [onlyStatus; onlyUpdate] this.
Proof.
  destruct u as [u|], st as [st|]; split; reflexivity.
Qed.

Lemma wizardObject_handleUpdates (evs : list WizardUpdateEvent) (this : t) :
  wizardObject (handleUpdates evs this) = foldl spread (wizardObject this) (updatesOf evs).
Proof.
  revert this. induction evs as [|ev evs IH]; intros this; [done|].
  rewrite handleUpdates_cons, IH, wizardObject_handleUpdate.
  unfold updatesOf. cbn [omap list_omap].
  by destruct (update (content ev)).
Qed.

Lemma dom_foldl_spread (w : JSObject) (us : list JSObject) :
  dom (foldl spread w us) = dom w ∪ ⋃ (dom <$> us).
Proof.
  revert w. induction us as [|u us IH]; intros w; simpl.
  - by rewrite (right_id_L ∅ (∪)).
  - rewrite IH. unfold spread. rewrite dom_union_L. set_solver.
Qed.

(** X5. No sequence of events drops a top-level key: the keys of the
    wizard state afterwards are those it had and those of the updates. *)
Theorem handleUpdates_keys (evs : list WizardUpdateEvent) (this : t) :
  dom (wizardObject (handleUpdates evs this))
  = dom (wizardObject this) ∪ ⋃ (dom <$> updatesOf evs).
Proof. rewrite wizardObject_handleUpdates. apply dom_foldl_spread. Qed.

(** X6. Whatever events follow, an object of the store stays what it is,
    so a reference handed out at an earlier render still reads the state
    of that render; and [this.wizard] never dangles. *)
Theorem handleUpdates_store_stable (evs : list WizardUpdateEvent) (this : t) :
  (∀ l o, objects this !! l = Some o → objects (handleUpdates evs this) !! l = Some o)
  ∧ (allocated this → allocated (handleUpdates evs this)).
Proof.
  revert this. induction evs as [|ev evs IH]; intros this; [done|].
  rewrite handleUpdates_cons. destruct (IH (handleUpdate ev this).2) as [IHo IHa].
  split.
  - intros l o Hl. apply IHo. by apply objects_handleUpdate_old.
  - intros Hal. apply IHa. by apply allocated_handleUpdate.
Qed.

Lemma handleUpdates_store_stable_witness :
  objects (handleUpdates [nested_event; nested_event] nested_before) !! 0%nat
  = Some {[ "app" := VObj {[ "name" := VStr "x" ]} ]}.
Proof.
  apply (proj1 (handleUpdates_store_stable [nested_event; nested_event] nested_before)).
  vm_compute. reflexivity.
Defined.

(** X7. An update that only repeats what the state holds, the empty update
    [{}] among them, still makes a new object: the reference changes, the
    content does not. *)
Theorem handleUpdate_redundant_update (ev : WizardUpdateEvent) (this : t) (u : JSObject) :
  update (content ev) = Some u →
  u ⊆ wizardObject this →
  allocated this →
  wizardObject (handleUpdate ev this).2 = wizardObject this
  ∧ wizard (handleUpdate ev this).2 ≠ wizard this.
Proof.
  intros Hu Hsub Hal. split.
  - rewrite wizardObject_handleUpdate, Hu. cbn [from_option]. unfold spread.
    by apply map_subseteq_union.
  - rewrite (proj2 (store_handleUpdate ev this)), Hu. cbn [from_option].
    unfold mergeUpdate. simpl. intros Heq.
    pose proof (fresh_loc_not_allocated this) as Hfr. rewrite Heq in Hfr.
    destruct Hal as [w Hw]. congruence.
Qed.

Lemma handleUpdate_redundant_update_witness :
  wizardObject (handleUpdate {| content := {| update := Some ∅; status := None |};
                                propagationStopped := false |} init).2
  = wizardObject init
  ∧ wizard (handleUpdate {| content := {| update := Some ∅; status := None |};
                            propagationStopped := false |} init).2
    ≠ wizard init.
Proof.
  apply (handleUpdate_redundant_update
           {| content := {| update := Some ∅; status := None |};
              propagationStopped := false |} init ∅ eq_refl).
  - apply map_empty_subseteq.
  - vm_compute. eauto.
Defined.

(** X8. Two updates with no top-level key in common give the same wizard
    state in either order. *)
Theorem handleUpdates_disjoint_commute
    (ev1 ev2 : WizardUpdateEvent) (u1 u2 : JSObject) (this : t) :
  update (content ev1) = Some u1 →
  update (content ev2) = Some u2 →
  dom u1 ## dom u2 →
  wizardObject (handleUpdates [ev1; ev2] this)
  = wizardObject (handleUpdates [ev2; ev1] this).
Proof.
  intros H1 H2 Hdisj. rewrite !wizardObject_handleUpdates.
  unfold updatesOf. cbn [omap list_omap]. rewrite H1, H2. simpl. unfold spread.
  apply map_disjoint_dom in Hdisj.
  rewrite !(assoc_L (∪)). f_equal. by apply map_union_comm.
Qed.

Lemma handleUpdates_disjoint_commute_witness :
  let ev1 := {| content := {| update := Some {[ "providerModel" := VStr "oauth2" ]};
                              status := None |};
                propagationStopped := false |} in
  let ev2 := {| content := {| update := Some {[ "currentBinding" := VNum 0 ]};
                              status := None |};
                propagationStopped := false |} in
  wizardObject (handleUpdates [ev1; ev2] init) = wizardObject (handleUpdates [ev2; ev1] init).
Proof.
  intros ev1 ev2.
  apply (handleUpdates_disjoint_commute ev1 ev2
           {[ "providerModel" := VStr "oauth2" ]} {[ "currentBinding" := VNum 0 ]}
           init eq_refl eq_refl).
  rewrite !dom_singleton_L. apply disjoint_singleton_l.
  rewrite elem_of_singleton. discriminate.
Defined.

Lemma includes_applyStatus (st : Status) (this : t) (k : string) :
  includes (enabled (applyStatus st this)) k =
    if includes (asArr (default (Many []) (enable st))) k then true
    else if includes (asArr (default (Many []) (disable st))) k then false
    else includes (enabled this) k.
Proof.
  unfold applyStatus. cbn [enabled]. unfold Set_keys, Set_new.
  set (E := asArr (default (Many []) (enable st))).
  set (D := asArr (default (Many []) (disable st))).
  assert (k ∈ Set_add_all [] (filter (λ k0, negb (includes D k0)) (enabled this) ++ E)
          ↔ k ∈ E ∨ (k ∈ enabled this ∧ k ∉ D)) as Hiff.
  { rewrite elem_of_Set_add_all, elem_of_nil, elem_of_app, elem_of_surviving. tauto. }
  unfold includes in *.
  repeat case_bool_decide; try reflexivity; exfalso; tauto.
Qed.

(** X9. After any sequence of events a step is enabled exactly when the
    last status that names it enables it (an [enable] beats a [disable] of
    the same status), or, if none names it, when it was enabled before. *)
Theorem handleUpdates_last_instruction
    (evs : list WizardUpdateEvent) (this : t) (k : string) :
  includes (enabled (handleUpdates evs this)) k
  = lastInstruction k (includes (enabled this) k) (statusesOf evs).
Proof.
  revert this. induction evs as [|ev evs IH]; intros this; [done|].
  rewrite handleUpdates_cons, IH, enabled_handleUpdate.
  unfold statusesOf, lastInstruction. cbn [omap list_omap].
  destruct (status (content ev)) as [st|]; cbn [from_option foldl]; [|done].
  by rewrite includes_applyStatus.
Qed.

Lemma NoDup_enabled_handleUpdates (evs : list WizardUpdateEvent) (this : t) :
  NoDup (enabled this) → NoDup (enabled (handleUpdates evs this)).
Proof.
  revert this. induction evs as [|ev evs IH]; intros this Hnd; [done|].
  rewrite handleUpdates_cons. apply IH. rewrite enabled_handleUpdate.
  destruct (status (content ev)); cbn [from_option]; [apply NoDup_Set_new|done].
Qed.

Lemma allocated_handleUpdates (evs : list WizardUpdateEvent) (this : t) :
  allocated this → allocated (handleUpdates evs this).
Proof.
  revert this. induction evs as [|ev evs IH]; intros this Hal; [done|].
  rewrite handleUpdates_cons. by apply IH, allocated_handleUpdate.
Qed.

(** X19. After any sequence of events [render] gives [ak-wizard-steps]
    each enabled step once, and gives the children in the four slots, in
    the order [application], [provider-choice], [provider], [submit], one
    and the same reference: to an object of the store that holds the state
    merged so far. *)
Theorem render_after_handleUpdates (evs : list WizardUpdateEvent) (this : t) :
  allocated this →
  NoDup (enabled this) →
  let this' := handleUpdates evs this in
  NoDup (render this').1
  ∧ members (render this').1 = members (enabled this')
  ∧ (render this').2.*1 = ["application"; "provider-choice"; "provider"; "submit"]
  ∧ ∀ slot l, (slot, l) ∈ (render this').2 →
      l = wizard this'
      ∧ objects this' !! l = Some (foldl spread (wizardObject this) (updatesOf evs)).
Proof.
  intros Hal Hnd this'. split_and!.
  - by apply NoDup_enabled_handleUpdates.
  - reflexivity.
  - reflexivity.
  - intros slot l Hin.
    assert (l = wizard this') as ->.
    { unfold render in Hin. cbn [snd] in Hin.
      rewrite !elem_of_cons, elem_of_nil in Hin.
      destruct Hin as [[= _ ->] | [[= _ ->] | [[= _ ->] | [[= _ ->] | []]]]]; done. }
    split; [done|].
    destruct (allocated_handleUpdates evs this Hal) as [o Ho]. fold this' in Ho.
    rewrite Ho. f_equal. rewrite <- wizardObject_handleUpdates. fold this'.
    unfold wizardObject. by rewrite (lookup_total_correct _ _ _ Ho).
Qed.

Lemma render_after_handleUpdates_witness :
  (render (handleUpdates [nested_event] nested_before)).2.*1
  = ["application"; "provider-choice"; "provider"; "submit"].
Proof.
  assert (allocated nested_before) as Hal by (vm_compute; eauto).
  assert (NoDup (enabled nested_before)) as Hnd
    by (apply (bool_decide_unpack _); vm_compute; exact I).
  exact (proj1 (proj2 (proj2
           (render_after_handleUpdates [nested_event] nested_before Hal Hnd)))).
Defined.

End MainExtra.

(** * Further properties of the step base class *)

Module StepExtra.
Import WizardStep StepSpec.

Lemma traverse_Ok {A B} (f : A → result B) (l : list A) (bs : list B) :
  traverse f l = Ok bs ↔ Forall2 (λ a b, f a = Ok b) l bs.
Proof.
  revert bs. induction l as [|a l IH]; intros bs; simpl.
  - split.
    + intros [= <-]. constructor.
    + intros ->%Forall2_nil_inv_l. done.
  - unfold mbind, result_bind. destruct (f a) as [b|m] eqn:Ha.
    + destruct (traverse f l) as [bs'|m] eqn:Hl.
      * split.
        -- intros [= <-]. constructor; [done|]. by apply IH.
        -- intros (b' & bs'' & Hb & Hbs & ->)%Forall2_cons_inv_l.
           apply IH in Hbs. congruence.
      * split; [done|].
        intros (b' & bs'' & Hb & Hbs & ->)%Forall2_cons_inv_l.
        apply IH in Hbs. congruence.
    + split; [done|].
      intros (b' & bs'' & Hb & Hbs & ->)%Forall2_cons_inv_l. congruence.
Qed.

Lemma traverse_throws {A B} (f : A → result B) (l : list A) :
  throws (traverse f l) ↔ ∃ a, a ∈ l ∧ throws (f a).
Proof.
  unfold throws. induction l as [|a l IH]; simpl.
  - split; [intros [m [=]]|intros (a & Ha & _); by apply elem_of_nil in Ha].
  - unfold mbind, result_bind. destruct (f a) as [b|m] eqn:Ha.
    + destruct (traverse f l) as [bs|m'] eqn:Hl.
      * split; [intros [m [=]]|].
        intros (a' & [-> | Hin]%elem_of_cons & [m Hm]); [congruence|].
        assert (∃ m0, @Ok (list B) bs = Throw m0) as [m0 [=]].
        apply IH. eauto.
      * split; [|eauto].
        intros _. destruct (proj1 IH) as (a' & Hin & Hthrow); [eauto|].
        exists a'. split; [by right|done].
    + split; [|eauto]. intros _. exists a. split; [left|eauto].
Qed.

Lemma active_dec (this : t) :
  strictEquals (WizardStepState.currentStep (wizardStepState this))
               (getAttribute this "slot") = false
  ↔ ¬ ∃ s, WizardStepState.currentStep (wizardStepState this) = Some s
            ∧ getAttribute this "slot" = Some s.
Proof.
  rewrite <- strictEquals_true. by destruct (strictEquals _ _).
Qed.

(** X10. [renderButton] fails exactly for a button that is not disabled,
    is of kind [next] or [back] and has no destination, with the message
    of the [otherwise] clause; any other button is rendered by one of the
    three button templates. *)
Theorem renderButton_throws (msg : string → string) (button : WizardButton.t) :
  (throws (renderButton msg button)
   ↔ WizardButton.disabled button ≠ Some true
     ∧ (WizardButton.kind button = next ∨ WizardButton.kind button = back)
     ∧ WizardButton.destination button = None)
  ∧ (throws (renderButton msg button) →
     renderButton msg button = Throw "Button type is not close, disabled, or navigable?")
  ∧ (∀ html, renderButton msg button = Ok html →
       html = renderDisabledButton msg button
       ∨ html = renderCloseButton msg button
       ∨ html = renderNavigableButton msg button).
Proof.
  unfold renderButton, throws.
  destruct (WizardButton.disabled button) as [[|]|],
           (WizardButton.kind button),
           (WizardButton.destination button) as [d|];
    (split_and!;
     [ split;
       [ first [ by intros [m [=]]
               | intros _; split_and!; [discriminate|auto|reflexivity] ]
       | first [ by eauto
               | intros (Hd & [Hk | Hk] & Hdest); congruence ] ]
     | intros [m Hm]; congruence
     | intros html [= <-]; auto ]).
Qed.

Lemma renderButton_throws_witness :
  throws (renderButton Samples.msg (Samples.button next (Some false) None)).
Proof.
  apply (proj1 (renderButton_throws Samples.msg (Samples.button next (Some false) None))).
  split_and!; [discriminate|by left|reflexivity].
Defined.



(** X12. Whichever template renders a button, it shows the label of the
    button if it has one, the empty label included, and the localized name
    of its kind otherwise; its classes are [pf-c-button] and the class of
    its kind; and its type is [button]. *)
Theorem renderButton_label_and_classes
    (msg : string → string) (button : WizardButton.t) (html : Html) :
  renderButton msg button = Ok html →
  ∃ el, (html = Button el ∨ html = FooterCancel el)
        ∧ HTMLButtonElement.text el
          = match WizardButton.label button with
            | Some l => l
            | None => BUTTON_KIND_TO_LABEL msg (WizardButton.kind button)
            end
        ∧ HTMLButtonElement.classes el
          = [ ("pf-c-button", true);
              (BUTTON_KIND_TO_CLASS (WizardButton.kind button), true) ]
        ∧ HTMLButtonElement.attributes el !! "type" = Some "button".
Proof.
  unfold renderButton, getButtonLabel.
  destruct (WizardButton.disabled button) as [[|]|],
           (WizardButton.kind button) eqn:Hk,
           (WizardButton.destination button) as [d|];
    intros [= <-]; eexists;
    (split; [first [by left | by right]|]);
    unfold getButtonLabel, getButtonClasses; simpl; rewrite ?Hk;
    by destruct (WizardButton.label button).
Qed.

Lemma renderButton_label_and_classes_witness :
  ∃ el, HTMLButtonElement.text el = "Cancel"
        ∧ HTMLButtonElement.classes el = [ ("pf-c-button", true); ("pf-m-link", true) ].
Proof.
  destruct (renderButton_label_and_classes Samples.msg
              (Samples.button cancel None None)
              (renderCloseButton Samples.msg (Samples.button cancel None None))
              eq_refl) as (el & _ & Htext & Hclasses & _).
  exists el. split; [exact Htext|exact Hclasses].
Defined.



Lemma render_name_is_slot (msg : string → string) `{M : Methods} (this : t) (s : string) :
  name this = Some s →
  getAttribute this "slot" = Some s →
  (render msg this = renderBody msg this
   ↔ WizardStepState.currentStep (wizardStepState this) = name this)
  ∧ (WizardStepState.currentStep (wizardStepState this) ≠ name this →
     render msg this = Ok nothing).
Proof.
  intros Hn Hs. unfold render. rewrite Hs, Hn.
  pose proof (renderBody_not_nothing msg this) as Hbody.
  destruct (WizardStepState.currentStep (wizardStepState this)) as [c|]; simpl.
  - case_bool_decide as Hc.
    + subst c. split; [done|]. intros Hcontra. by destruct Hcontra.
    + split; [|done]. split; [intros Heq; exfalso; by apply Hbody|].
      intros [= ->]. done.
  - split; [|done]. split; [intros Heq; exfalso; by apply Hbody|done].
Qed.

(** X14. A step that was given no name and has connected renders its body
    exactly when the current step is its name, and nothing otherwise. *)
Theorem render_after_connectedCallback
    (msg : string → string) `{M : Methods}
    (provided : option WizardStepState.t) (this this' : t) :
  falsy (name this) = true →
  connectedCallback provided this = Ok this' →
  (render msg this' = renderBody msg this'
   ↔ WizardStepState.currentStep (wizardStepState this') = name this')
  ∧ (WizardStepState.currentStep (wizardStepState this') ≠ name this' →
     render msg this' = Ok nothing).
Proof.
  intros Hn. rewrite connectedCallback_cases, Hn.
  destruct (falsy (getAttribute this "slot")) eqn:Hs; [done|].
  intros [= <-].
  apply falsy_false in Hs as (s & Hs & Hne).
  apply (render_name_is_slot msg _ s).
  - cbn [name]. exact Hs.
  - exact Hs.
Qed.

Lemma render_after_connectedCallback_witness :
  ∃ this', connectedCallback None (Samples.step None (Some "submit") (Some "submit")) = Ok this'
           ∧ render (M := Samples.ClientStep) Samples.msg this'
             = renderBody (M := Samples.ClientStep) Samples.msg this'.
Proof.
  eexists. split; [reflexivity|].
  apply (proj1 (render_after_connectedCallback (M := Samples.ClientStep) Samples.msg
                  None (Samples.step None (Some "submit") (Some "submit")) _
                  eq_refl eq_refl)).
  reflexivity.
Defined.

(** X15. A step of the base class itself, where [renderMain] is not
    overridden, cannot render while it is the current step: [render] throws
    the "must be overridden" error.  While it is not the current step it
    renders nothing, without error. *)
Theorem render_base_class (msg : string → string) (this : t) :
  ((∃ s, WizardStepState.currentStep (wizardStepState this) = Some s
         ∧ getAttribute this "slot" = Some s) →
   render (M := Base) msg this = Throw "This must be overridden in client classes")
  ∧ ((¬ ∃ s, WizardStepState.currentStep (wizardStepState this) = Some s
             ∧ getAttribute this "slot" = Some s) →
     render (M := Base) msg this = Ok nothing).
Proof.
  unfold render. split.
  - intros Hact. apply strictEquals_true in Hact. rewrite Hact. reflexivity.
  - intros Hin. apply active_dec in Hin. rewrite Hin. reflexivity.
Qed.

Lemma render_base_class_witness :
  render (M := Base) Samples.msg
    (Samples.step (Some "application") (Some "application") (Some "application"))
  = Throw "This must be overridden in client classes".
Proof.
  apply (proj1 (render_base_class Samples.msg
                  (Samples.step (Some "application") (Some "application")
                     (Some "application")))).
  exists "application". split; reflexivity.
Defined.

(** X16. [render] itself throws exactly when the step is the current one
    and [renderMain] throws, and then with the error of [renderMain].  The
    buttons play no part in it: [render] only builds the [map] over them,
    so a step with a button that no template renders still gets its
    template from [render]. *)
Theorem render_throws (msg : string → string) `{M : Methods} (this : t) :
  let active := ∃ s, WizardStepState.currentStep (wizardStepState this) = Some s
                     ∧ getAttribute this "slot" = Some s in
  (throws (render msg this) ↔ active ∧ throws (renderMain this))
  ∧ (∀ m, active → renderMain this = Throw m → render msg this = Throw m)
  ∧ (∀ main, active → renderMain this = Ok main →
       ∃ icon nav, render msg this
                   = Ok (ModalBox icon (wizardTitle this) (wizardDescription this) nav
                           main (MapRenderButton (buttons this)))).
Proof.
  intros active. unfold render.
  pose proof (strictEquals_true (WizardStepState.currentStep (wizardStepState this))
                (getAttribute this "slot")) as Hact.
  fold active in Hact.
  destruct (strictEquals _ _).
  - assert active as Ha by (by apply Hact). unfold renderBody. split_and!.
    + destruct (renderMain this) as [main|m] eqn:Hmain; simpl.
      * split; [intros [m [=]]|]. intros (_ & [m [=]]).
      * split; [|intros _; by eexists].
        intros _. split; [done|]. by eexists.
    + intros m _ Hm. by rewrite Hm.
    + intros main _ Hm. rewrite Hm. simpl. by eexists _, _.
  - assert (¬ active) as Hna by (intros Ha; apply Hact in Ha; done). split_and!.
    + split; [intros [m [=]]|]. intros [Ha _]. done.
    + intros m Ha. done.
    + intros main Ha. done.
Qed.

Lemma render_throws_witness :
  ¬ throws (render (M := Samples.BadButtonStep) Samples.msg
              (Samples.step None (Some "provider") (Some "provider"))).
Proof.
  intros Hthrows.
  apply (proj1 (proj1 (render_throws (M := Samples.BadButtonStep) Samples.msg
                         (Samples.step None (Some "provider") (Some "provider")))))
    in Hthrows as [_ [m Hm]].
  discriminate Hm.
Defined.



(** X18. The sidebar entry of a step shows the label of the step, is
    marked current exactly when the step is active, and is disabled exactly
    when the step is not enabled; a click on the entry of a step that is
    not enabled raises no event. *)
Theorem renderSidebarStep_entry (step : WizardStepLabel.t) :
  ∃ el, renderSidebarStep step = NavItem el
        ∧ HTMLButtonElement.text el = WizardStepLabel.label step
        ∧ HTMLButtonElement.classes el
          = [ ("pf-c-wizard__nav-link", true);
              ("pf-m-current", WizardStepLabel.active step) ]
        ∧ HTMLButtonElement.isDisabled el = negb (WizardStepLabel.enabled step)
        ∧ (WizardStepLabel.enabled step = false → click el = Ok []).
Proof.
  eexists. split; [reflexivity|].
  assert (HTMLButtonElement.isDisabled
            {| HTMLButtonElement.classes :=
                 [ ("pf-c-wizard__nav-link", true);
                   ("pf-m-current", WizardStepLabel.active step) ];
               HTMLButtonElement.attributes :=
                 boolAttribute "disabled" (negb (WizardStepLabel.enabled step))
                 ∪ {[ "target" := WizardStepLabel.id step ]};
               HTMLButtonElement.listener := Some ListenSidebarNav;
               HTMLButtonElement.text := WizardStepLabel.label step |}
          = negb (WizardStepLabel.enabled step)) as Hdis.
  { unfold HTMLButtonElement.isDisabled. cbn [HTMLButtonElement.attributes].
    destruct (WizardStepLabel.enabled step); simpl.
    - rewrite (left_id_L ∅ (∪)), lookup_singleton_ne by discriminate.
      apply bool_decide_eq_false_2. by intros [? [=]].
    - apply bool_decide_eq_true_2. rewrite lookup_union_l'.
      + rewrite lookup_singleton_eq. eauto.
      + rewrite lookup_singleton_eq. eauto. }
  split_and!; [reflexivity|reflexivity|exact Hdis|].
  intros Hen. unfold click. rewrite Hdis, Hen. reflexivity.
Qed.

Lemma renderSidebarStep_entry_witness :
  ∃ el, renderSidebarStep {| WizardStepLabel.id := "submit";
                             WizardStepLabel.label := "Submit";
                             WizardStepLabel.enabled := false;
                             WizardStepLabel.active := false |} = NavItem el
        ∧ click el = Ok [].
Proof.
  destruct (renderSidebarStep_entry {| WizardStepLabel.id := "submit";
                                       WizardStepLabel.label := "Submit";
                                       WizardStepLabel.enabled := false;
                                       WizardStepLabel.active := false |})
    as (el & Hr & _ & _ & _ & Hclick).
  exists el. split; [exact Hr|]. apply Hclick. reflexivity.
Defined.

End StepExtra.
